(** * Driver of the 2-D compressible (ALA) mantle-convection tutorial

  Shallow embedding of the time loop of
  [99-other/2d_compressible_ALA/2d_compressible_ALA.py]: the timestep
  adaptor call, the Stokes and energy solves, the diagnostics and their
  log line, the re-assignment of the full temperature, the steady-state
  test, and the epilogue that closes the log and writes the checkpoint.

  Conventions of the embedding.
  - Python floats are modelled by exact rationals ([Q]); rounding is not
    modelled, except for [time += dt], which [Binary64] also gives with its
    rounding: of all that is stated here, only the strict growth of [time]
    depends on it.  The UFL expressions of the set-up (reference state, initial
    temperature), which use [exp], [cos], [sin] and [pi], are read over the
    real numbers.
  - A Firedrake [Function] over the scalar space is the map from its
    degrees of freedom to their coefficients; [assign (T + Tbar)] adds
    coefficients node by node.
  - The objects [z], [T], [FullT], [delta_t], the log, the VTK files and
    the checkpoint are mutated in place by the script; they are the fields
    of one store, [State], threaded through the loop.  Objects that hold a
    reference to a function ([gd] holds [z] and [FullT], the energy solver
    holds [T]) read the store at the time they are called.
  - What the gadopt library does (the solves, the assembled integrals, the
    CFL estimate) is a parameter, gathered in [Collaborators].  A solve
    that raises is a solve that returns [None]. *)

From Stdlib Require Import Reals Lra.
From Stdlib Require Import QArith Qminmax Qabs Lqa.
From Stdlib Require Import List String Bool Arith PeanoNat NArith Lia.
From Stdlib Require SpecFloat.
Import ListNotations.
Local Open Scope Q_scope.

(** ** Boolean strict comparison on rationals, as Python's [<] on floats *)

Definition Qltb (x y : Q) : bool := negb (Qle_bool y x).

(** ** The timestep adaptor *)

Module TimestepAdaptor.

(** The two keyword arguments the script passes at line 155. *)
Record t : Type := mk {
  maximum_timestep : Q;
  increase_tolerance : Q
}.

(** Modelled from the spec: [TimestepAdaptor.update_timestep] is gadopt
    library code and is missing from the sources; only its construction
    (line 155) and its call (line 224) are there.  The spec (4.1) gives
    [dt = min (maximum_timestep, growth_factor * previous_dt, cfl_bound)]
    and, when the CFL bound is undefined (zero velocity), a fall back to
    the previous step's value.  [cfl] is the CFL bound, [None] when it is
    undefined. *)
Definition update_timestep (a : t) (previous_dt : Q) (cfl : option Q) : Q :=
  match cfl with
  | Some c =>
      Qmin (maximum_timestep a) (Qmin (increase_tolerance a * previous_dt) c)
  | None => previous_dt
  end.

(** A CFL bound, when defined, is a positive time. *)
Definition cfl_positive (cfl : option Q) : Prop :=
  match cfl with
  | Some c => 0 < c
  | None => True
  end.

End TimestepAdaptor.

(** [t_adapt = TimestepAdaptor(delta_t, u, V, maximum_timestep=0.1,
  increase_tolerance=1.5)] *)
Definition t_adapt : TimestepAdaptor.t :=
  TimestepAdaptor.mk 0.1 1.5.

(** ** Configuration: the literals of the script *)

Record Config : Type := mkConfig {
  timesteps : nat;               (* timesteps = 20000 *)
  output_frequency : positive;   (* output_frequency = 50; zero would make
                                  [timestep % output_frequency] raise *)
  steady_state_tolerance : Q;    (* steady_state_tolerance = 1e-9 *)
  initial_delta_t : Q;           (* delta_t = Constant(1e-6) *)
  adaptor : TimestepAdaptor.t
}.

Definition script_config : Config :=
  {| timesteps := N.to_nat 20000;
    output_frequency := 50;
    steady_state_tolerance := 1e-9;
    initial_delta_t := 1e-6;
    adaptor := t_adapt |}.

(** The header written at lines 196-198. *)
Definition header_columns : string :=
  "timestep time dt maxchange u_rms u_rms_surf ux_max nu_base nu_top energy avg_t rate_work_g rate_viscous energy_2".

(** One formatted line of lines 243-247, column by column. *)
Record LogRow : Type := mkRow {
  row_timestep : nat;
  row_time : Q;
  row_dt : Q;
  row_maxchange : Q;
  row_u_rms : Q;
  row_u_rms_surf : Q;
  row_ux_max : Q;
  row_nu_base : Q;
  row_nu_top : Q;
  row_energy : Q;
  row_avg_t : Q;
  row_rate_work_g : Q;
  row_rate_viscous : Q;
  row_energy_2 : Q
}.

Inductive LogLine : Type :=
| Header (columns : string)
| Data (row : LogRow).

Definition data_rows (log : list LogLine) : list LogRow :=
  flat_map (fun l => match l with Data r => [r] | Header _ => [] end) log.

(** The only exception the model raises: a solve that does not converge. *)
Inductive Exn : Type := SolverDivergence.

(** How the [for] statement is left. *)
Inductive Exit : Type :=
| LoopBreak              (* the [break] of line 255 *)
| RangeExhausted         (* [range(0, timesteps)] is used up *)
| Uncaught (e : Exn).    (* an exception leaves the loop and the script *)

(** The terminal states the spec names. *)
Inductive Terminal : Type := CONVERGED | MAX_STEPS_REACHED | DIVERGED.

Definition terminal_of (e : Exit) : Terminal :=
  match e with
  | LoopBreak => CONVERGED
  | RangeExhausted => MAX_STEPS_REACHED
  | Uncaught SolverDivergence => DIVERGED
  end.

(** ** The store, the collaborators and the loop *)

Section Driver.

(** Degrees of freedom of the scalar space [Q]; the mixed function [z] of
    the space [Z]; the mesh. *)
Context {Node Mixed Mesh : Type}.

Definition Field : Type := Node -> Q.

(** The right-hand side [T + Tbar] of [FullT.assign(T+Tbar)]. *)
Definition field_sum (a b : Field) : Field := fun x => a x + b x.

(** What [final_checkpoint] holds after lines 264-267. *)
Record Checkpoint : Type := mkCheckpoint {
  saved_mesh : Mesh;
  saved_Temperature : Field;
  saved_Stokes : Mixed
}.

Record State : Type := mkState {
  time : Q;
  delta_t : Q;                   (* the Constant shared with [t_adapt] *)
  z : Mixed;
  T : Field;
  T_old : Field;                 (* [energy_solver.T_old] *)
  FullT : Field;
  plog : list LogLine;           (* lines of params.log, oldest first *)
  plog_closed : bool;
  output_file : list (Mixed * Field * Field);
  ref_file : nat;                (* number of writes of the reference state *)
  final_checkpoint : option Checkpoint
}.

Record Collaborators : Type := mkCollaborators {
  mesh : Mesh;
  Tbar : Field;
  (* CFL bound computed by the adaptor from the velocity in [z] *)
  cfl_bound : Mixed -> option Q;
  (* [stokes_solver.solve()]: reads [T], updates [z] *)
  stokes_solve : Field -> Mixed -> option Mixed;
  (* [energy_solver.solve()]: reads [delta_t], [z], [T] and its own
     [T_old]; updates [T] and [T_old] *)
  energy_solve : Q -> Mixed -> Field -> Field -> option (Field * Field);
  (* methods of [gd = GeodynamicalDiagnostics(z, FullT, bottom_id, top_id)] *)
  u_rms : Mixed -> Field -> Q;
  u_rms_top : Mixed -> Field -> Q;
  ux_max : Mixed -> Field -> Q;
  Nu_bottom : Mixed -> Field -> Q;
  Nu_top : Mixed -> Field -> Q;
  T_avg : Mixed -> Field -> Q;
  (* [assemble(approximation.work_against_gravity(u, T)*dx)] *)
  work_against_gravity : Mixed -> Field -> Q;
  (* [assemble(approximation.viscous_dissipation(u)*dx)] *)
  viscous_dissipation : Mixed -> Q;
  (* [sqrt(assemble((T - energy_solver.T_old)**2 * dx))] *)
  l2_change : Field -> Field -> Q
}.

(** What the script builds before the loop that is not a literal. *)
Record Initial : Type := mkInitial {
  z_init : Mixed;
  T_init : Field;
  T_old_init : Field
}.

Variable C : Collaborators.
Variable cfg : Config.

(** *** In-place updates of the store *)

Definition set_time (v : Q) (s : State) : State :=
  mkState v (delta_t s) (z s) (T s) (T_old s) (FullT s) (plog s)
          (plog_closed s) (output_file s) (ref_file s) (final_checkpoint s).

Definition set_delta_t (v : Q) (s : State) : State :=
  mkState (time s) v (z s) (T s) (T_old s) (FullT s) (plog s)
          (plog_closed s) (output_file s) (ref_file s) (final_checkpoint s).

Definition set_z (v : Mixed) (s : State) : State :=
  mkState (time s) (delta_t s) v (T s) (T_old s) (FullT s) (plog s)
          (plog_closed s) (output_file s) (ref_file s) (final_checkpoint s).

Definition set_T (v w : Field) (s : State) : State :=
  mkState (time s) (delta_t s) (z s) v w (FullT s) (plog s)
          (plog_closed s) (output_file s) (ref_file s) (final_checkpoint s).

Definition set_FullT (v : Field) (s : State) : State :=
  mkState (time s) (delta_t s) (z s) (T s) (T_old s) v (plog s)
          (plog_closed s) (output_file s) (ref_file s) (final_checkpoint s).

Definition set_plog (v : list LogLine) (s : State) : State :=
  mkState (time s) (delta_t s) (z s) (T s) (T_old s) (FullT s) v
          (plog_closed s) (output_file s) (ref_file s) (final_checkpoint s).

Definition set_plog_closed (v : bool) (s : State) : State :=
  mkState (time s) (delta_t s) (z s) (T s) (T_old s) (FullT s) (plog s)
          v (output_file s) (ref_file s) (final_checkpoint s).

Definition set_files (v : list (Mixed * Field * Field)) (n : nat)
           (s : State) : State :=
  mkState (time s) (delta_t s) (z s) (T s) (T_old s) (FullT s) (plog s)
          (plog_closed s) v n (final_checkpoint s).

Definition set_final_checkpoint (v : option Checkpoint) (s : State) : State :=
  mkState (time s) (delta_t s) (z s) (T s) (T_old s) (FullT s) (plog s)
          (plog_closed s) (output_file s) (ref_file s) v.

(** *** Statements: a state monad whose exceptions keep the store *)

Inductive Res (A : Type) : Type :=
| Ok (a : A) (s : State)
| Exc (e : Exn) (s : State).
Arguments Ok {A} a s.
Arguments Exc {A} e s.

Definition M (A : Type) : Type := State -> Res A.

Definition ret {A} (a : A) : M A := fun s => Ok a s.

Definition bind {A B} (m : M A) (k : A -> M B) : M B :=
  fun s => match m s with
           | Ok a s' => k a s'
           | Exc e s' => Exc e s'
           end.

Definition read {A} (f : State -> A) : M A := fun s => Ok (f s) s.
Definition modify (f : State -> State) : M unit := fun s => Ok tt (f s).

Notation "x <- m ;; k" := (bind m (fun x => k))
  (at level 61, m at next level, right associativity).
Notation "m ;; k" := (bind m (fun _ => k))
  (at level 61, right associativity).

(** *** The statements of the script *)

(** [plog.log_str(...)] *)
Definition log_str (l : LogLine) : M unit :=
  modify (fun s => set_plog (plog s ++ [l]) s).

(** Lines 220-222. *)
Definition write_output (timestep : nat) : M unit :=
  if (N.of_nat timestep mod Npos (output_frequency cfg) =? 0)%N
  then modify (fun s =>
         set_files (output_file s ++ [(z s, T s, FullT s)]) (S (ref_file s)) s)
  else ret tt.

(** Line 224: the adaptor reads the velocity and the shared Constant
    [delta_t], stores the new step in it and returns it. *)
Definition t_adapt_update_timestep : M Q :=
  fun s =>
    let dt := TimestepAdaptor.update_timestep
                (adaptor cfg) (delta_t s) (cfl_bound C (z s)) in
    Ok dt (set_delta_t dt s).

(** Line 228. *)
Definition stokes_solver_solve : M unit :=
  fun s => match stokes_solve C (T s) (z s) with
           | Some z' => Ok tt (set_z z' s)
           | None => Exc SolverDivergence s
           end.

(** Line 231. *)
Definition energy_solver_solve : M unit :=
  fun s => match energy_solve C (delta_t s) (z s) (T s) (T_old s) with
           | Some (T', T_old') => Ok tt (set_T T' T_old' s)
           | None => Exc SolverDivergence s
           end.

(** Calls on [gd] read the [z] and [FullT] of the store as they are now. *)
Definition gd (f : Collaborators -> Mixed -> Field -> Q) : M Q :=
  read (fun s => f C (z s) (FullT s)).

(** What the loop does with the outcome of one pass. *)
Inductive Ctl : Type := Next | Brk.

(** Lines 218-255: one pass of the loop body.  The console message of
    line 254 touches nothing of the store and is left out. *)
Definition loop_body (timestep : nat) : M Ctl :=
  write_output timestep ;;
  dt <- t_adapt_update_timestep ;;
  modify (fun s => set_time (time s + dt) s) ;;
  stokes_solver_solve ;;
  energy_solver_solve ;;
  nu_top <- gd Nu_top ;;
  nu_bottom <- gd Nu_bottom ;;
  let energy_conservation := Qabs (Qabs nu_top - Qabs nu_bottom) in
  rate_work_against_gravity <-
    read (fun s => work_against_gravity C (z s) (T s)) ;;
  rate_viscous_dissipation <- read (fun s => viscous_dissipation C (z s)) ;;
  let energy_conservation_2 :=
    Qabs (rate_work_against_gravity - rate_viscous_dissipation) in
  maxchange <- read (fun s => l2_change C (T s) (T_old s)) ;;
  now <- read time ;;
  dt_now <- read delta_t ;;
  c_u_rms <- gd u_rms ;;
  c_u_rms_top <- gd u_rms_top ;;
  c_ux_max <- gd ux_max ;;
  c_nu_bottom <- gd Nu_bottom ;;
  c_nu_top <- gd Nu_top ;;
  c_t_avg <- gd T_avg ;;
  log_str (Data (mkRow timestep now dt_now maxchange c_u_rms c_u_rms_top
                       c_ux_max c_nu_bottom c_nu_top energy_conservation
                       c_t_avg rate_work_against_gravity
                       rate_viscous_dissipation energy_conservation_2)) ;;
  modify (fun s => set_FullT (field_sum (T s) (Tbar C)) s) ;;
  if Qltb maxchange (steady_state_tolerance cfg) then ret Brk else ret Next.

(** The line a pass writes, told from the store [s] it starts from and the
    store [s'] it leaves: [time], [delta_t], [z], [T] and [T_old] are
    those the solves produced, [FullT] is still the one of [s]. *)
Definition pass_row (timestep : nat) (s s' : State) : LogRow :=
  let nu_top := Nu_top C (z s') (FullT s) in
  let nu_bottom := Nu_bottom C (z s') (FullT s) in
  let work := work_against_gravity C (z s') (T s') in
  let visc := viscous_dissipation C (z s') in
  mkRow timestep (time s') (delta_t s')
        (l2_change C (T s') (T_old s'))
        (u_rms C (z s') (FullT s)) (u_rms_top C (z s') (FullT s))
        (ux_max C (z s') (FullT s)) nu_bottom nu_top
        (Qabs (Qabs nu_top - Qabs nu_bottom))
        (T_avg C (z s') (FullT s)) work visc (Qabs (work - visc)).

Fixpoint pass_rows (timestep : nat) (s : State) (l : list State)
  : list LogRow :=
  match l with
  | [] => []
  | s' :: l' => pass_row timestep s s' :: pass_rows (S timestep) s' l'
  end.

(** The convergence metric of line 240 in a store. *)
Definition maxchange_of (s : State) : Q := l2_change C (T s) (T_old s).

(** The step the adaptor returns when the pass starts from [s]. *)
Definition next_dt (s : State) : Q :=
  TimestepAdaptor.update_timestep
    (adaptor cfg) (delta_t s) (cfl_bound C (z s)).

(** The run of [for timestep in range(0, timesteps)]: the stores left by
    the passes that ran to their end, how the loop was left, and the store
    at that moment. *)
Record Run : Type := mkRun {
  completed : list State;
  exit : Exit;
  final : State
}.

Fixpoint for_range (remaining timestep : nat) (s : State) : Run :=
  match remaining with
  | O => mkRun [] RangeExhausted s
  | S remaining' =>
      match loop_body timestep s with
      | Exc e s' => mkRun [] (Uncaught e) s'
      | Ok Brk s' => mkRun [s'] LoopBreak s'
      | Ok Next s' =>
          let r := for_range remaining' (S timestep) s' in
          mkRun (s' :: completed r) (exit r) (final r)
      end
  end.

(** How the loop is left, read on the stores of the passes. *)
Definition exit_spec (n i : nat) (s : State) (r : Run) : Prop :=
  let tol := steady_state_tolerance cfg in
  match exit r with
  | LoopBreak =>
      exists earlier sN,
        completed r = earlier ++ [sN] /\ final r = sN /\
        Forall (fun s' => tol <= maxchange_of s') earlier /\
        maxchange_of sN < tol
  | RangeExhausted =>
      List.length (completed r) = n /\
      final r = last (completed r) s /\
      Forall (fun s' => tol <= maxchange_of s') (completed r)
  | Uncaught e =>
      (List.length (completed r) < n)%nat /\
      Forall (fun s' => tol <= maxchange_of s') (completed r) /\
      loop_body (i + List.length (completed r)) (last (completed r) s)
      = Exc e (final r)
  end.

(** Lines 152-200: the store when the loop is entered. *)
Definition initial_state (i : Initial) : State :=
  mkState 0 (initial_delta_t cfg) (z_init i) (T_init i) (T_old_init i)
          (field_sum (T_init i) (Tbar C))
          [Header header_columns] false [] O None.

(** Lines 262-267, reached only when no exception left the loop. *)
Definition epilogue (s : State) : State :=
  let s1 := set_plog_closed true s in
  set_final_checkpoint (Some (mkCheckpoint (mesh C) (T s1) (z s1))) s1.

(** The whole script. *)
Record Outcome : Type := mkOutcome {
  terminal : Terminal;
  steps : list State;      (* stores after each executed step *)
  end_state : State
}.

Definition main (i : Initial) : Outcome :=
  let r := for_range (timesteps cfg) 0 (initial_state i) in
  match exit r with
  | Uncaught e => mkOutcome (terminal_of (exit r)) (completed r) (final r)
  | _ => mkOutcome (terminal_of (exit r)) (completed r) (epilogue (final r))
  end.

End Driver.

Arguments Ok {Node Mixed Mesh A} a s.
Arguments Exc {Node Mixed Mesh A} e s.

(** ** The two halves of a pass *)

Section Halves.

Context {Node Mixed Mesh : Type}.
Variable C : @Collaborators Node Mixed Mesh.
Variable cfg : Config.

(** Lines 219-231: the output, the new time step, the advance of time and
    the two solves.  The store this leaves is the one the diagnostics of
    lines 234-247 read. *)
Definition solve_step (timestep : nat) : @M Node Mixed Mesh unit :=
  bind (write_output cfg timestep) (fun _ =>
  bind (t_adapt_update_timestep C cfg) (fun dt =>
  bind (modify (fun s => set_time (time s + dt) s)) (fun _ =>
  bind (stokes_solver_solve C) (fun _ =>
  energy_solver_solve C)))).

(** Lines 233-255: the diagnostics, the log line, [FullT.assign(T+Tbar)]
    and the steady-state test. *)
Definition finish_step (timestep : nat) : @M Node Mixed Mesh Ctl :=
  bind (gd C Nu_top) (fun nu_top =>
  bind (gd C Nu_bottom) (fun nu_bottom =>
  let energy_conservation := Qabs (Qabs nu_top - Qabs nu_bottom) in
  bind (read (fun s => work_against_gravity C (z s) (T s)))
       (fun rate_work_against_gravity =>
  bind (read (fun s => viscous_dissipation C (z s)))
       (fun rate_viscous_dissipation =>
  let energy_conservation_2 :=
    Qabs (rate_work_against_gravity - rate_viscous_dissipation) in
  bind (read (fun s => l2_change C (T s) (T_old s))) (fun maxchange =>
  bind (read time) (fun now =>
  bind (read delta_t) (fun dt_now =>
  bind (gd C u_rms) (fun c_u_rms =>
  bind (gd C u_rms_top) (fun c_u_rms_top =>
  bind (gd C ux_max) (fun c_ux_max =>
  bind (gd C Nu_bottom) (fun c_nu_bottom =>
  bind (gd C Nu_top) (fun c_nu_top =>
  bind (gd C T_avg) (fun c_t_avg =>
  bind (log_str
          (Data (mkRow timestep now dt_now maxchange c_u_rms c_u_rms_top
                       c_ux_max c_nu_bottom c_nu_top energy_conservation
                       c_t_avg rate_work_against_gravity
                       rate_viscous_dissipation energy_conservation_2)))
       (fun _ =>
  bind (modify (fun s => set_FullT (field_sum (T s) (Tbar C)) s)) (fun _ =>
  if Qltb maxchange (steady_state_tolerance cfg)
  then ret Brk else ret Next))))))))))))))).

End Halves.

(** ** The log file behind [plog] *)

Module ParameterLog.

(** What is on disk, what was written and not yet flushed, and whether the
    file is closed. *)
Record t : Type := mk {
  on_disk : list LogLine;
  buffered : list LogLine;
  closed : bool
}.


Definition write (l : LogLine) (f : t) : t :=
  mk (on_disk f) (buffered f ++ [l]) (closed f).

Definition flush (f : t) : t :=
  mk (on_disk f ++ buffered f) [] (closed f).

(** Modelled from the spec: [ParameterLog] is gadopt library code and is
    missing from the sources; only its construction (line 195) and the calls
    of [log_str] (lines 196, 243) and [close] (line 262) are there.  The
    spec (6) has the log sink an append-only text record, one line per
    step, that is flushed at every terminal transition, the divergence
    included -- where the script calls nothing on the log after its last
    [log_str]: a line is flushed when it is appended. *)
Definition log_str (l : LogLine) (f : t) : t := flush (write l f).


End ParameterLog.

Section Sink.

Context {Node Mixed Mesh : Type}.


End Sink.

(** ** Time as Python holds it

    [time] and [dt] are binary64 floats; line 225 adds them with rounding
    to nearest. *)

Module Binary64.







End Binary64.

(** ** A test bench: a scalar space with two nodes, collaborators as stubs *)

Module Bench.

(** The L1 distance of the two coefficients stands for the L2 norm. *)
Definition distance (a b : @Field bool) : Q :=
  Qabs (a true - b true) + Qabs (a false - b false).

(** The mixed function is one number, the speed; the CFL bound is its
    inverse, undefined at rest. *)
Definition cfl (v : Q) : option Q :=
  if Qle_bool v 0 then None else Some (/ v).

Definition bench
    (stokes : @Field bool -> Q -> option Q)
    (energy : Q -> Q -> @Field bool -> @Field bool
              -> option (@Field bool * @Field bool))
  : @Collaborators bool Q unit :=
  mkCollaborators tt (fun x : bool => if x then 0 else 1 # 2) cfl stokes energy
    (fun v _ => Qabs v) (fun v _ => Qabs v) (fun v _ => v)
    (fun _ F => F false) (fun _ F => F true)
    (fun _ F => (F true + F false) / 2)
    (fun v U => v * U false) (fun v => v * v) distance.

(** Solvers that leave every field as it is. *)
Definition unchanged : @Collaborators bool Q unit :=
  bench (fun _ v => Some v) (fun _ _ U _ => Some (U, U)).

(** Solvers that speed up by one and heat by [dt] at each step. *)
Definition heating : @Collaborators bool Q unit :=
  bench (fun _ v => Some (v + 1))
        (fun dt _ U _ => Some ((fun x => U x + dt), U)).

(** As [heating], but the Stokes solve raises once the speed is 2: on the
    third step. *)
Definition diverging : @Collaborators bool Q unit :=
  bench (fun _ v => if Qle_bool 2 v then None else Some (v + 1))
        (fun dt _ U _ => Some ((fun x => U x + dt), U)).

Definition config (n : nat) (tol : Q) : Config :=
  mkConfig n 2 tol 1e-6 t_adapt.

Definition start : @Initial bool Q :=
  mkInitial 0 (fun x : bool => if x then 0 else 1) (fun _ => 0).

(** Three steps of [heating] with a tolerance that is never undercut, and
    the stores and lines it leaves. *)
Definition heating_run : @Outcome bool Q unit :=
  main heating (config 3 0) start.

Definition heating_store (n : nat) : @State bool Q unit :=
  nth n (initial_state heating (config 3 0) start :: steps heating_run)
      (initial_state heating (config 3 0) start).

Definition heating_row (n : nat) : LogRow :=
  nth n (data_rows (plog (end_state heating_run)))
      (mkRow 0 0 0 0 0 0 0 0 0 0 0 0 0 0).

(** Five steps at most of [diverging]. *)
Definition diverging_run : @Outcome bool Q unit :=
  main diverging (config 5 0) start.

(** Five steps at most of [unchanged] under the tolerance of the script,
    and the first data line it logs. *)
Definition unchanged_run : @Outcome bool Q unit :=
  main unchanged (config 5 1e-9) start.

(** The store of [heating_run] right after the two solves of its first
    pass, before the diagnostics and line 250. *)
Definition heating_after_solves : @State bool Q unit :=
  match solve_step heating (config 3 0) 0
          (initial_state heating (config 3 0) start) with
  | Ok _ s => s
  | Exc _ s => s
  end.



Definition unchanged_row : LogRow :=
  nth 0 (data_rows (plog (end_state unchanged_run)))
      (mkRow 0 0 0 0 0 0 0 0 0 0 0 0 0 0).

End Bench.

(** ** The reference state, the initial temperature and its boundary values

    Lines 127-136, 161-163 and 180-183.  The UFL expressions are functions
    of the point; they are read over the real numbers, where [exp], [cos],
    [sin] and [pi] are exact. *)

Module ReferenceState.

Local Open Scope R_scope.

(** [X = SpatialCoordinate(mesh)]: [X[0]] is [fst], [X[1]] is [snd]. *)
Definition Point : Type := (R * R)%type.

(** Boundary markers of the unit square: [left_id, right_id, bottom_id,
    top_id = 1, 2, 3, 4]. *)
Definition left_id : nat := 1.
Definition right_id : nat := 2.
Definition bottom_id : nat := 3.
Definition top_id : nat := 4.

(** The side of the unit square a marker stands for. *)
Definition on_boundary (id : nat) (X : Point) : Prop :=
  match id with
  | 1%nat => fst X = 0
  | 2%nat => fst X = 1
  | 3%nat => snd X = 0
  | 4%nat => snd X = 1
  | _ => False
  end.

Section Constants.

(** [Di = Constant(0.5)], [T0 = Constant(0.091)] in the script. *)
Variables Di T0 : R.

(** [rhobar]: [exp((1.0 - X[1]) * Di)]. *)
Definition rhobar (X : Point) : R := exp ((1 - snd X) * Di).

(** [Tbar]: [T0 * exp((1.0 - X[1]) * Di) - T0]. *)
Definition Tbar (X : Point) : R := T0 * exp ((1 - snd X) * Di) - T0.

(** [alphabar], [cpbar], [chibar], [gbar]: [assign(1.0)]. *)
Definition alphabar (X : Point) : R := 1.
Definition cpbar (X : Point) : R := 1.
Definition chibar (X : Point) : R := 1.
Definition gbar (X : Point) : R := 1.

(** Line 162: the expression [T] is interpolated from. *)
Definition T_initial (X : Point) : R :=
  (1 - (T0 * exp Di - T0))
  * ((1 - snd X) + (0.05 * cos (PI * fst X) * sin (PI * snd X))).

(** Line 163: [FullT] is assigned [T + Tbar]. *)
Definition FullT_initial (X : Point) : R := T_initial X + Tbar X.

(** [temp_bcs]: the value imposed on [T] on a boundary, if any. *)
Definition temp_bcs (id : nat) : option R :=
  if Nat.eqb id bottom_id then Some (1 - (T0 * exp Di - T0))
  else if Nat.eqb id top_id then Some 0
  else None.

End Constants.

End ReferenceState.

(** ** Vocabulary for the sinks *)

(** The sums a running total goes through: [time] after each [time += dt]. *)
Fixpoint running_sums (start : Q) (l : list Q) : list Q :=
  match l with
  | [] => []
  | d :: l' => (start + d) :: running_sums (start + d) l'
  end.

Section Sinks.

Context {Node Mixed Mesh : Type}.
Variable cfg : Config.

(** The test of line 220. *)
Definition output_due (timestep : nat) : bool :=
  (N.of_nat timestep mod Npos (output_frequency cfg) =? 0)%N.

(** The frames line 221 writes when the passes numbered from [timestep] on
    start from the stores of [l], one pass per store. *)
Fixpoint frames_from (timestep : nat) (l : list (@State Node Mixed Mesh))
  : list (Mixed * @Field Node * @Field Node) :=
  match l with
  | [] => []
  | s :: l' =>
      (if output_due timestep then [(z s, T s, FullT s)] else [])
      ++ frames_from (S timestep) l'
  end.

(** The passes a run started: the executed steps and, when a solve raised,
    the pass it raised in. *)
Definition passes_started (o : @Outcome Node Mixed Mesh) : nat :=
  match terminal o with
  | DIVERGED => S (List.length (steps o))
  | _ => List.length (steps o)
  end.

End Sinks.

(** * Properties *)

(** ** Comparison and lists *)

Lemma Qltb_true (x y : Q) : Qltb x y = true <-> x < y.
Proof.
unfold Qltb. rewrite negb_true_iff. split.
- intros H. apply Qnot_le_lt. intros Hle.
  apply Qle_bool_iff in Hle. congruence.
- intros H. destruct (Qle_bool y x) eqn:E; [|reflexivity].
  apply Qle_bool_iff in E. exfalso. apply (Qlt_not_le _ _ H E).
Qed.

Lemma Qltb_false (x y : Q) : Qltb x y = false <-> y <= x.
Proof.
unfold Qltb. rewrite negb_false_iff. apply Qle_bool_iff.
Qed.

Lemma last_cons {A : Type} (l : list A) (a d : A) :
last (a :: l) d = last l a.
Proof.
revert a d. induction l as [|b l IH]; intros a d.
- reflexivity.
- change (last (a :: b :: l) d) with (last (b :: l) d).
  rewrite (IH b d), (IH b a). reflexivity.
Qed.


Section Properties.

Context {Node Mixed Mesh : Type}.
Variable C : @Collaborators Node Mixed Mesh.
Variable cfg : Config.

Abbreviation St := (@State Node Mixed Mesh).

(** ** One pass *)

Lemma loop_body_ok (i : nat) (s s' : St) (c : Ctl) :
  loop_body C cfg i s = Ok c s' ->
  stokes_solve C (T s) (z s) = Some (z s') /\
  energy_solve C (next_dt C cfg s) (z s') (T s) (T_old s) = Some (T s', T_old s') /\
  time s' = time s + next_dt C cfg s /\
  delta_t s' = next_dt C cfg s /\
  FullT s' = field_sum (T s') (Tbar C) /\
  plog s' = plog s ++ [Data (pass_row C i s s')] /\
  plog_closed s' = plog_closed s /\
  final_checkpoint s' = final_checkpoint s /\
  c = if Qltb (maxchange_of C s') (steady_state_tolerance cfg)
      then Brk else Next.
Proof.
  unfold loop_body, bind, write_output, t_adapt_update_timestep,
    stokes_solver_solve, energy_solver_solve, gd, read, modify, log_str,
    ret, next_dt, maxchange_of, pass_row.
  destruct (N.eqb _ _); cbn [z T T_old FullT delta_t time plog
    set_files set_delta_t set_time set_z set_T set_plog set_FullT];
    (destruct (stokes_solve C (T s) (z s)) as [z'|] eqn:Es; [|discriminate]);
    cbn [z T T_old FullT delta_t time plog
    set_files set_delta_t set_time set_z set_T set_plog set_FullT];
    (destruct (energy_solve C _ z' (T s) (T_old s)) as [[T' Told']|] eqn:Ee;
     [|discriminate]);
    cbn [z T T_old FullT delta_t time plog
    set_files set_delta_t set_time set_z set_T set_plog set_FullT];
    destruct (Qltb _ _) eqn:Eq; intros H; inversion H; subst; clear H;
    cbn; repeat split; try reflexivity; try assumption;
    rewrite Eq; reflexivity.
Qed.

Lemma loop_body_exc (i : nat) (s s' : St) (e : Exn) :
  loop_body C cfg i s = Exc e s' ->
  plog s' = plog s /\
  plog_closed s' = plog_closed s /\
  final_checkpoint s' = final_checkpoint s /\
  (stokes_solve C (T s) (z s) = None \/
   exists z', stokes_solve C (T s) (z s) = Some z' /\
              energy_solve C (next_dt C cfg s) z' (T s) (T_old s) = None).
Proof.
  unfold loop_body, bind, write_output, t_adapt_update_timestep,
    stokes_solver_solve, energy_solver_solve, gd, read, modify, log_str,
    ret, next_dt.
  destruct (N.eqb _ _); cbn [z T T_old FullT delta_t time plog
    set_files set_delta_t set_time set_z set_T set_plog set_FullT];
    (destruct (stokes_solve C (T s) (z s)) as [z'|] eqn:Es;
     [|intros H; inversion H; subst; cbn; auto]);
    cbn [z T T_old FullT delta_t time plog
    set_files set_delta_t set_time set_z set_T set_plog set_FullT];
    (destruct (energy_solve C _ z' (T s) (T_old s)) as [[T' Told']|] eqn:Ee;
     [|intros H; inversion H; subst; cbn; repeat split; eauto]);
    cbn [z T T_old FullT delta_t time plog
    set_files set_delta_t set_time set_z set_T set_plog set_FullT];
    destruct (Qltb _ _); discriminate.
Qed.

(** A pass whose two solves return runs to its end. *)
Lemma loop_body_runs (i : nat) (s : St) (z' : Mixed) (T' Told' : Field) :
  stokes_solve C (T s) (z s) = Some z' ->
  energy_solve C (next_dt C cfg s) z' (T s) (T_old s) = Some (T', Told') ->
  exists s',
    loop_body C cfg i s
    = Ok (if Qltb (l2_change C T' Told') (steady_state_tolerance cfg)
          then Brk else Next) s'.
Proof.
  intros Es Ee.
  unfold loop_body, bind, write_output, t_adapt_update_timestep,
    stokes_solver_solve, energy_solver_solve, gd, read, modify, log_str,
    ret.
  unfold next_dt in Ee.
  destruct (N.eqb _ _); cbn [z T T_old FullT delta_t time plog
    set_files set_delta_t set_time set_z set_T set_plog set_FullT];
    rewrite Es;
    cbn [z T T_old FullT delta_t time plog
    set_files set_delta_t set_time set_z set_T set_plog set_FullT];
    rewrite Ee;
    cbn [z T T_old FullT delta_t time plog
    set_files set_delta_t set_time set_z set_T set_plog set_FullT];
    destruct (Qltb _ _); eexists; reflexivity.
Qed.

(** ** The loop *)

Lemma for_range_length (n i : nat) (s : St) :
  (List.length (completed (for_range C cfg n i s)) <= n)%nat.
Proof.
  revert i s. induction n as [|n IH]; intros i s; cbn [for_range].
  - cbn. lia.
  - destruct (loop_body C cfg i s) as [[|] s'|e s']; cbn [completed List.length].
    + specialize (IH (S i) s'). lia.
    + lia.
    + lia.
Qed.

(** Consecutive stores of a run are related by one pass of the body. *)
Lemma for_range_passes (n i : nat) (s : St) (k : nat) (sp s' : St) :
  nth_error (s :: completed (for_range C cfg n i s)) k = Some sp ->
  nth_error (completed (for_range C cfg n i s)) k = Some s' ->
  exists c, loop_body C cfg (i + k) sp = Ok c s'.
Proof.
  revert i s k. induction n as [|n IH]; intros i s k; cbn [for_range].
  - cbn [completed]. destruct k; discriminate.
  - destruct (loop_body C cfg i s) as [[|] s1|e s1] eqn:Eb; cbn [completed].
    + destruct k as [|k]; cbn [nth_error].
      * intros H1 H2. inversion H1; inversion H2; subst.
        rewrite Nat.add_0_r. eauto.
      * intros H1 H2. replace (i + S k)%nat with (S i + k)%nat by lia.
        eapply IH; eassumption.
    + destruct k as [|k]; cbn [nth_error].
      * intros H1 H2. inversion H1; inversion H2; subst.
        rewrite Nat.add_0_r. eauto.
      * destruct k; discriminate.
    + destruct k; discriminate.
Qed.

Lemma for_range_plog (n i : nat) (s : St) :
  let r := for_range C cfg n i s in
  plog (final r) = plog s ++ map Data (pass_rows C i s (completed r)).
Proof.
  revert i s. induction n as [|n IH]; intros i s; cbn [for_range].
  - cbn. rewrite app_nil_r. reflexivity.
  - destruct (loop_body C cfg i s) as [[|] s1|e s1] eqn:Eb;
      cbn [completed final pass_rows map].
    + rewrite (IH (S i) s1).
      apply loop_body_ok in Eb.
      destruct Eb as (_ & _ & _ & _ & _ & Hlog & _).
      rewrite Hlog, <- app_assoc. reflexivity.
    + apply loop_body_ok in Eb.
      destruct Eb as (_ & _ & _ & _ & _ & Hlog & _).
      exact Hlog.
    + apply loop_body_exc in Eb. destruct Eb as (Hlog & _).
      rewrite app_nil_r. exact Hlog.
Qed.

Lemma for_range_sinks (n i : nat) (s : St) :
  let r := for_range C cfg n i s in
  plog_closed (final r) = plog_closed s /\
  final_checkpoint (final r) = final_checkpoint s.
Proof.
  revert i s. induction n as [|n IH]; intros i s; cbn [for_range].
  - cbn. auto.
  - destruct (loop_body C cfg i s) as [[|] s1|e s1] eqn:Eb; cbn [final].
    + destruct (IH (S i) s1) as [H1 H2]. rewrite H1, H2.
      apply loop_body_ok in Eb. tauto.
    + apply loop_body_ok in Eb. tauto.
    + apply loop_body_exc in Eb. tauto.
Qed.

Lemma for_range_exit (n i : nat) (s : St) :
  exit_spec C cfg n i s (for_range C cfg n i s).
Proof.
  revert i s. induction n as [|n IH]; intros i s; unfold exit_spec;
    cbn [for_range].
  - cbn. auto.
  - destruct (loop_body C cfg i s) as [[|] s1|e s1] eqn:Eb;
      cbn [exit completed final].
    + pose proof (loop_body_ok _ _ _ _ Eb) as Hok.
      destruct Hok as (_ & _ & _ & _ & _ & _ & _ & _ & Hc).
      destruct (Qltb _ _) eqn:Et; [discriminate|].
      apply Qltb_false in Et.
      specialize (IH (S i) s1). unfold exit_spec in IH.
      destruct (exit (for_range C cfg n (S i) s1)).
      * destruct IH as (earlier & sN & He & Hf & Hall & Hlt).
        exists (s1 :: earlier), sN. rewrite He. repeat split; auto.
      * destruct IH as (Hlen & Hf & Hall).
        cbn [List.length]. repeat split; auto.
        rewrite Hf, last_cons. reflexivity.
      * destruct IH as (Hlen & Hall & Hb).
        cbn [List.length]. repeat split; auto; [lia|].
        replace (i + S (List.length (completed (for_range C cfg n (S i) s1))))%nat
          with (S i + List.length (completed (for_range C cfg n (S i) s1)))%nat
          by lia.
        rewrite last_cons. exact Hb.
    + pose proof (loop_body_ok _ _ _ _ Eb) as Hok.
      destruct Hok as (_ & _ & _ & _ & _ & _ & _ & _ & Hc).
      destruct (Qltb _ _) eqn:Et; [|discriminate].
      apply Qltb_true in Et.
      exists [], s1. repeat split; auto.
    + cbn. repeat split; auto; [lia|].
      rewrite Nat.add_0_r. exact Eb.
Qed.

(** ** The whole script *)

Lemma main_run (i : Initial) :
  let r := for_range C cfg (timesteps cfg) 0 (initial_state C cfg i) in
  terminal (main C cfg i) = terminal_of (exit r) /\
  steps (main C cfg i) = completed r /\
  end_state (main C cfg i)
  = match exit r with
    | Uncaught _ => final r
    | _ => epilogue C (final r)
    end.
Proof.
  unfold main. cbv zeta.
  destruct (exit (for_range C cfg (timesteps cfg) 0 (initial_state C cfg i)));
    cbn [terminal steps end_state]; auto.
Qed.

(** Every executed step is one pass of the body, started from the store
    the step before left (from the initial store for step 0). *)
Lemma steps_pass (i : Initial) (k : nat) (s : St) :
  nth_error (steps (main C cfg i)) k = Some s ->
  exists sp c,
    nth_error (initial_state C cfg i :: steps (main C cfg i)) k = Some sp /\
    loop_body C cfg k sp = Ok c s.
Proof.
  destruct (main_run i) as (_ & Hs & _). rewrite Hs. intros Hk.
  assert (Hlt : (k < List.length
                        (initial_state C cfg i ::
                         completed (for_range C cfg (timesteps cfg) 0
                                      (initial_state C cfg i))))%nat).
  { cbn [List.length]. apply Nat.lt_lt_succ_r, nth_error_Some. congruence. }
  apply nth_error_Some in Hlt.
  destruct (nth_error (initial_state C cfg i :: _) k) as [sp|] eqn:Ep;
    [|congruence].
  destruct (for_range_passes _ _ _ _ _ _ Ep Hk) as [c Hc].
  exists sp, c. split; [reflexivity|exact Hc].
Qed.

Lemma steps_FullT (i : Initial) (k : nat) (s : St) :
  nth_error (initial_state C cfg i :: steps (main C cfg i)) k = Some s ->
  FullT s = field_sum (T s) (Tbar C).
Proof.
  destruct k as [|k]; cbn [nth_error].
  - intros H. inversion H. reflexivity.
  - intros H. destruct (steps_pass _ _ _ H) as (sp & c & _ & Hb).
    apply loop_body_ok in Hb. tauto.
Qed.

(** C1 (as the code has it): after every executed step -- at the end of
    the pass, once the Stokes solve, the energy solve, the diagnostics, the
    log line and [FullT.assign(T+Tbar)] of line 250 have run -- the full
    temperature is, node by node, the temperature plus the reference
    temperature.  It is so in the initial store as well. *)
Theorem full_temperature_after_step (i : Initial) :
  Forall (fun s : St => forall x : Node, FullT s x = T s x + Tbar C x)
         (initial_state C cfg i :: steps (main C cfg i)).
Proof.
  apply Forall_forall. intros s Hin.
  apply In_nth_error in Hin. destruct Hin as [k Hk].
  intros x. rewrite (steps_FullT _ _ _ Hk). reflexivity.
Qed.

Lemma main_sinks (i : Initial) :
  let o := main C cfg i in
  match terminal o with
  | DIVERGED =>
      plog_closed (end_state o) = false /\ final_checkpoint (end_state o) = None
  | _ =>
      plog_closed (end_state o) = true /\
      final_checkpoint (end_state o)
      = Some (mkCheckpoint (mesh C) (T (end_state o)) (z (end_state o)))
  end.
Proof.
  cbv zeta. destruct (main_run i) as (Ht & _ & He). rewrite Ht, He.
  pose proof (for_range_sinks (timesteps cfg) 0 (initial_state C cfg i))
    as [Hc Hk].
  cbv zeta in Hc, Hk. cbn [initial_state plog_closed final_checkpoint] in Hc, Hk.
  destruct (exit _) as [| |[]]; cbn; auto.
Qed.


(** C3 (as the code has it): the checkpoint -- mesh, temperature, mixed
    Stokes function, as they are when the loop is left -- is written exactly
    when the loop is left by [break] or by exhaustion of the range; when a
    solve raises, no checkpoint is written. *)
Theorem checkpoint_unless_diverged (i : Initial) :
  final_checkpoint (end_state (main C cfg i))
  = match terminal (main C cfg i) with
    | DIVERGED => None
    | _ => Some (mkCheckpoint (mesh C) (T (end_state (main C cfg i)))
                              (z (end_state (main C cfg i))))
    end.
Proof.
  pose proof (main_sinks i) as H. cbv zeta in H.
  destruct (terminal (main C cfg i)); tauto.
Qed.

(** ** The log *)

Lemma data_rows_Data (rows : list LogRow) : data_rows (map Data rows) = rows.
Proof.
  induction rows as [|r rows IH]; [reflexivity|].
  cbn [map data_rows flat_map app]. f_equal. exact IH.
Qed.

Lemma pass_rows_length (i : nat) (s : St) (l : list St) :
  List.length (pass_rows C i s l) = List.length l.
Proof.
  revert i s. induction l as [|s' l IH]; intros i s; cbn [pass_rows List.length].
  - reflexivity.
  - f_equal. apply IH.
Qed.

Lemma pass_rows_timesteps (i : nat) (s : St) (l : list St) :
  map row_timestep (pass_rows C i s l) = seq i (List.length l).
Proof.
  revert i s. induction l as [|s' l IH]; intros i s;
    cbn [pass_rows List.length map seq].
  - reflexivity.
  - f_equal. apply IH.
Qed.

Lemma pass_rows_nth (i : nat) (s0 : St) (l : list St) (k : nat)
      (sp s : St) (row : LogRow) :
  nth_error (s0 :: l) k = Some sp ->
  nth_error l k = Some s ->
  nth_error (pass_rows C i s0 l) k = Some row ->
  row = pass_row C (i + k) sp s.
Proof.
  revert i s0 k. induction l as [|s1 l IH]; intros i s0 k.
  - destruct k; discriminate.
  - destruct k as [|k]; cbn [nth_error pass_rows].
    + intros H1 H2 H3. inversion H1; inversion H2; inversion H3; subst.
      rewrite Nat.add_0_r. reflexivity.
    + intros H1 H2 H3. replace (i + S k)%nat with (S i + k)%nat by lia.
      eapply IH; eassumption.
Qed.

Lemma main_plog (i : Initial) :
  plog (end_state (main C cfg i))
  = Header header_columns
    :: map Data (pass_rows C 0 (initial_state C cfg i) (steps (main C cfg i))).
Proof.
  destruct (main_run i) as (_ & Hs & He). rewrite Hs, He.
  pose proof (for_range_plog (timesteps cfg) 0 (initial_state C cfg i)) as Hl.
  cbv zeta in Hl. cbn [initial_state plog app] in Hl.
  destruct (exit _); cbn [epilogue plog set_final_checkpoint set_plog_closed];
    exact Hl.
Qed.

(** C10: the log starts with the one header line of lines 196-198 and then
    holds one data line per executed step, the step on which the loop breaks
    included, numbered from 0: [k] executed steps leave [k + 1] lines. *)
Theorem log_has_header_and_one_line_per_step (i : Initial) :
  exists rows : list LogRow,
    plog (end_state (main C cfg i)) = Header header_columns :: map Data rows /\
    List.length rows = List.length (steps (main C cfg i)) /\
    map row_timestep rows = seq 0 (List.length (steps (main C cfg i))) /\
    List.length (plog (end_state (main C cfg i)))
    = S (List.length (steps (main C cfg i))).
Proof.
  exists (pass_rows C 0 (initial_state C cfg i) (steps (main C cfg i))).
  rewrite main_plog. cbn [List.length].
  rewrite length_map, pass_rows_length, pass_rows_timesteps. auto.
Qed.

(** ** Leaving the loop *)

(** C4: the loop runs at most [timesteps] passes and is left in one of
    three ways, each with its cause: by [break], after a step whose
    temperature change is below the tolerance and which is the first such
    step; by exhaustion of the range, after exactly [timesteps] steps none of
    which was below the tolerance; or by the exception of a solve that did
    not converge, raised in the pass after the last completed step. *)
Theorem run_loop_exits (i : Initial) :
  (List.length (steps (main C cfg i)) <= timesteps cfg)%nat /\
  match terminal (main C cfg i) with
  | CONVERGED =>
      exists earlier sN,
        steps (main C cfg i) = earlier ++ [sN] /\
        Forall (fun s => steady_state_tolerance cfg <= maxchange_of C s)
               earlier /\
        maxchange_of C sN < steady_state_tolerance cfg
  | MAX_STEPS_REACHED =>
      List.length (steps (main C cfg i)) = timesteps cfg /\
      Forall (fun s => steady_state_tolerance cfg <= maxchange_of C s)
             (steps (main C cfg i))
  | DIVERGED =>
      (List.length (steps (main C cfg i)) < timesteps cfg)%nat /\
      Forall (fun s => steady_state_tolerance cfg <= maxchange_of C s)
             (steps (main C cfg i)) /\
      let s := last (steps (main C cfg i)) (initial_state C cfg i) in
      loop_body C cfg (List.length (steps (main C cfg i))) s
      = Exc SolverDivergence (end_state (main C cfg i)) /\
      (stokes_solve C (T s) (z s) = None \/
       exists z',
         stokes_solve C (T s) (z s) = Some z' /\
         energy_solve C (next_dt C cfg s) z' (T s) (T_old s) = None)
  end.
Proof.
  destruct (main_run i) as (Ht & Hs & He). rewrite Ht, Hs, He.
  split; [apply for_range_length|].
  pose proof (for_range_exit (timesteps cfg) 0 (initial_state C cfg i)) as Hx.
  unfold exit_spec in Hx.
  destruct (exit _) as [| |[]]; cbn [terminal_of].
  - destruct Hx as (earlier & sN & H1 & _ & H2 & H3). eauto.
  - tauto.
  - destruct Hx as (H1 & H2 & H3). cbn [Nat.add] in H3.
    repeat split; auto.
    apply loop_body_exc in H3. tauto.
Qed.

(** ** Time *)

Lemma update_timestep_positive (a : TimestepAdaptor.t) (prev : Q)
      (cfl : option Q) :
  0 < TimestepAdaptor.maximum_timestep a ->
  0 < TimestepAdaptor.increase_tolerance a ->
  0 < prev ->
  TimestepAdaptor.cfl_positive cfl ->
  0 < TimestepAdaptor.update_timestep a prev cfl.
Proof.
  intros Hm Hg Hp Hc.
  destruct cfl as [c|]; cbn [TimestepAdaptor.update_timestep] in *.
  - cbn [TimestepAdaptor.cfl_positive] in Hc.
    apply Q.min_glb_lt; [exact Hm|].
    apply Q.min_glb_lt; [|exact Hc].
    apply Qmult_lt_0_compat; assumption.
  - exact Hp.
Qed.

(** The literals of the script meet what the lemmas on time ask of a
    configuration. *)
Lemma script_config_steps :
  0 < initial_delta_t script_config /\
  initial_delta_t script_config
  <= TimestepAdaptor.maximum_timestep (adaptor script_config) /\
  0 < TimestepAdaptor.maximum_timestep (adaptor script_config) /\
  0 < TimestepAdaptor.increase_tolerance (adaptor script_config).
Proof.
  repeat split; vm_compute; congruence.
Qed.



(** It stays within the maximum the adaptor was given as well: every call
    of the adaptor finds a previous step in [(0, maximum_timestep]]. *)
Lemma delta_t_within_maximum (i : Initial) :
  initial_delta_t cfg <= TimestepAdaptor.maximum_timestep (adaptor cfg) ->
  forall (k : nat) (s : St),
    nth_error (initial_state C cfg i :: steps (main C cfg i)) k = Some s ->
    delta_t s <= TimestepAdaptor.maximum_timestep (adaptor cfg).
Proof.
  intros H0. induction k as [|k IH]; intros s; cbn [nth_error].
  - intros H. inversion H. exact H0.
  - intros H. destruct (steps_pass _ _ _ H) as (sp & c & Hp & Hb).
    apply loop_body_ok in Hb. destruct Hb as (_ & _ & _ & Hd & _).
    rewrite Hd. unfold next_dt, TimestepAdaptor.update_timestep.
    destruct (cfl_bound C (z sp)).
    + apply Q.le_min_l.
    + apply IH. exact Hp.
Qed.

(** ** Diagnostics *)

(** C9: the line of step [n] reports the Nusselt numbers and the average
    temperature computed on the full temperature the store held before the
    step -- the sum of the reference temperature and of the temperature of
    step [n - 1], or the initial one for step 0 -- together with the [z] of
    step [n]; the full temperature of step [n] is assigned afterwards. *)
Theorem diagnostics_read_previous_full_temperature
        (i : Initial) (n : nat) (s_prev s : St) (row : LogRow) :
  nth_error (initial_state C cfg i :: steps (main C cfg i)) n = Some s_prev ->
  nth_error (steps (main C cfg i)) n = Some s ->
  nth_error (data_rows (plog (end_state (main C cfg i)))) n = Some row ->
  row_timestep row = n /\
  row_nu_top row = Nu_top C (z s) (FullT s_prev) /\
  row_nu_base row = Nu_bottom C (z s) (FullT s_prev) /\
  row_avg_t row = T_avg C (z s) (FullT s_prev) /\
  FullT s_prev = field_sum (T s_prev) (Tbar C) /\
  FullT s = field_sum (T s) (Tbar C).
Proof.
  intros Hp Hs Hr.
  rewrite main_plog in Hr. cbn [data_rows flat_map app] in Hr.
  change (flat_map _ ?l) with (data_rows l) in Hr.
  rewrite data_rows_Data in Hr.
  rewrite (pass_rows_nth _ _ _ _ _ _ _ Hp Hs Hr).
  cbn [pass_row row_timestep row_nu_top row_nu_base row_avg_t Nat.add].
  repeat split.
  - exact (steps_FullT _ _ _ Hp).
  - exact (steps_FullT i (S n) s Hs).
Qed.

(** ** Scenarios *)

(** C7: with solves that leave the fields as they are, so that the
    temperature change measured after them is 0, and a tolerance of 1e-9,
    any run of at least one step stops after its first step, converged. *)
Theorem unchanged_fields_converge_in_one_step (i : Initial) :
  steady_state_tolerance cfg == 1e-9 ->
  (1 <= timesteps cfg)%nat ->
  (forall U v, stokes_solve C U v = Some v) ->
  (forall dt v U U_old,
      exists U_old',
        energy_solve C dt v U U_old = Some (U, U_old') /\
        l2_change C U U_old' == 0) ->
  terminal (main C cfg i) = CONVERGED /\
  List.length (steps (main C cfg i)) = 1%nat.
Proof.
  intros Htol Hn Hstokes Henergy.
  set (s0 := initial_state C cfg i).
  destruct (Henergy (next_dt C cfg s0) (z s0) (T s0) (T_old s0))
    as (U_old' & He & Hl2).
  destruct (loop_body_runs 0 s0 _ _ _ (Hstokes _ _) He) as [s1 Hb].
  assert (Hlt : Qltb (l2_change C (T s0) U_old') (steady_state_tolerance cfg)
                = true).
  { apply Qltb_true. rewrite Hl2, Htol. reflexivity. }
  rewrite Hlt in Hb.
  unfold main. fold s0.
  destruct (timesteps cfg) as [|n]; [lia|].
  cbn [for_range]. rewrite Hb. cbn. auto.
Qed.

(** A run whose solves never raise and whose tolerance is never undercut
    uses up the range. *)
Lemma run_exhausts_range (i : Initial) :
  (forall U v, stokes_solve C U v <> None) ->
  (forall dt v U U_old, energy_solve C dt v U U_old <> None) ->
  (forall U U_old, steady_state_tolerance cfg <= l2_change C U U_old) ->
  terminal (main C cfg i) = MAX_STEPS_REACHED /\
  List.length (steps (main C cfg i)) = timesteps cfg.
Proof.
  intros Hs He Hl.
  destruct (main_run i) as (Ht & Hst & _). rewrite Ht, Hst.
  pose proof (for_range_exit (timesteps cfg) 0 (initial_state C cfg i)) as Hx.
  unfold exit_spec in Hx.
  destruct (exit _) as [| |e]; cbn [terminal_of].
  - destruct Hx as (earlier & sN & _ & _ & _ & Hlt).
    exfalso. apply (Qlt_not_le _ _ Hlt). apply Hl.
  - tauto.
  - destruct Hx as (_ & _ & Hb). apply loop_body_exc in Hb.
    destruct Hb as (_ & _ & _ & [Hn|(z' & _ & Hn)]); exfalso.
    + exact (Hs _ _ Hn).
    + exact (He _ _ _ _ Hn).
Qed.

(** C8: with a tolerance of 0, which the strict test of line 253 never
    undercuts, and ten time steps, a run whose solves return stops by
    exhaustion of the range after exactly ten steps and ten data lines. *)
Theorem zero_tolerance_runs_all_steps (i : Initial) :
  steady_state_tolerance cfg == 0 ->
  timesteps cfg = 10%nat ->
  (forall U v, stokes_solve C U v <> None) ->
  (forall dt v U U_old, energy_solve C dt v U U_old <> None) ->
  (forall U U_old, 0 <= l2_change C U U_old) ->
  terminal (main C cfg i) = MAX_STEPS_REACHED /\
  List.length (steps (main C cfg i)) = 10%nat /\
  List.length (data_rows (plog (end_state (main C cfg i)))) = 10%nat.
Proof.
  intros Htol Hn Hs He Hl.
  assert (Hl' : forall U U_old,
             steady_state_tolerance cfg <= l2_change C U U_old)
    by (intros U U_old; rewrite Htol; apply Hl).
  destruct (run_exhausts_range i Hs He Hl') as [Ht Hk].
  rewrite Hn in Hk. repeat split; auto.
  rewrite main_plog. cbn [data_rows flat_map app].
  change (flat_map _ ?l) with (data_rows l).
  rewrite data_rows_Data, pass_rows_length. exact Hk.
Qed.

End Properties.

(** ** The adaptor as configured *)

(** C5: for a positive previous step within the maximum and a CFL bound
    that is positive when defined, the adaptor configured with a maximum of
    0.1 and a growth factor of 1.5 returns a positive step that does not
    exceed [min (0.1, 1.5 * previous_dt)]; it is
    [min (0.1, 1.5 * previous_dt, cfl_bound)] when the CFL bound is defined
    and the previous step when it is not. *)
Theorem update_timestep_value (previous_dt : Q) (cfl : option Q) :
  0 < previous_dt ->
  previous_dt <= TimestepAdaptor.maximum_timestep t_adapt ->
  TimestepAdaptor.cfl_positive cfl ->
  0 < TimestepAdaptor.update_timestep t_adapt previous_dt cfl /\
  TimestepAdaptor.update_timestep t_adapt previous_dt cfl
  <= Qmin 0.1 (1.5 * previous_dt) /\
  match cfl with
  | Some cfl_bound =>
      TimestepAdaptor.update_timestep t_adapt previous_dt cfl
      == Qmin 0.1 (Qmin (1.5 * previous_dt) cfl_bound)
  | None =>
      TimestepAdaptor.update_timestep t_adapt previous_dt cfl == previous_dt
  end.
Proof.
  intros Hp Hm Hc. split; [|split].
  - apply update_timestep_positive; auto; reflexivity.
  - destruct cfl as [c|];
      cbn [TimestepAdaptor.update_timestep t_adapt
           TimestepAdaptor.maximum_timestep
           TimestepAdaptor.increase_tolerance] in *.
    + apply Q.min_glb.
      * apply Q.le_min_l.
      * eapply Qle_trans; [apply Q.le_min_r|apply Q.le_min_l].
    + apply Q.min_glb; [exact Hm|]. lra.
  - destruct cfl; reflexivity.
Qed.

(** ** The scenarios on the test bench *)


Lemma distance_self (U : @Field bool) : Bench.distance U U == 0.
Proof.
  assert (H : forall q, Qabs (q - q) == 0).
  { intros q. setoid_replace (q - q) with 0 by ring. reflexivity. }
  unfold Bench.distance. rewrite !H. reflexivity.
Qed.

Lemma distance_nonneg (U V : @Field bool) : 0 <= Bench.distance U V.
Proof.
  unfold Bench.distance.
  pose proof (Qabs_nonneg (U true - V true)).
  pose proof (Qabs_nonneg (U false - V false)).
  lra.
Qed.

Lemma update_timestep_value_witness :
  0 < TimestepAdaptor.update_timestep t_adapt 1e-6 (Some 1e-6) /\
  TimestepAdaptor.update_timestep t_adapt 1e-6 (Some 1e-6)
  <= Qmin 0.1 (1.5 * 1e-6) /\
  TimestepAdaptor.update_timestep t_adapt 1e-6 (Some 1e-6)
  == Qmin 0.1 (Qmin (1.5 * 1e-6) 1e-6).
Proof.
  apply (update_timestep_value 1e-6 (Some 1e-6)).
  - reflexivity.
  - unfold Qle. simpl. lia.
  - reflexivity.
Defined.


Lemma diagnostics_read_previous_full_temperature_witness :
  row_timestep (Bench.heating_row 1) = 1%nat /\
  row_nu_top (Bench.heating_row 1)
  = Nu_top Bench.heating (z (Bench.heating_store 2))
      (FullT (Bench.heating_store 1)) /\
  row_nu_base (Bench.heating_row 1)
  = Nu_bottom Bench.heating (z (Bench.heating_store 2))
      (FullT (Bench.heating_store 1)) /\
  row_avg_t (Bench.heating_row 1)
  = T_avg Bench.heating (z (Bench.heating_store 2))
      (FullT (Bench.heating_store 1)) /\
  FullT (Bench.heating_store 1)
  = field_sum (T (Bench.heating_store 1)) (Tbar Bench.heating) /\
  FullT (Bench.heating_store 2)
  = field_sum (T (Bench.heating_store 2)) (Tbar Bench.heating).
Proof.
  apply (diagnostics_read_previous_full_temperature
           Bench.heating (Bench.config 3 0) Bench.start 1).
  - vm_compute. reflexivity.
  - vm_compute. reflexivity.
  - vm_compute. reflexivity.
Defined.

(** On the bench the staleness shows: the line of step 0 reports the top
    Nusselt number of the initial full temperature, 0, while the full
    temperature the step leaves gives 1e-6. *)
Example logged_nu_top_is_stale :
  row_nu_top (Bench.heating_row 0) == 0 /\
  Nu_top Bench.heating (z (Bench.heating_store 1))
         (FullT (Bench.heating_store 1)) == 1e-6.
Proof. split; vm_compute; reflexivity. Qed.

Lemma unchanged_fields_converge_in_one_step_witness :
  terminal (main Bench.unchanged (Bench.config 5 1e-9) Bench.start)
  = CONVERGED /\
  List.length (steps (main Bench.unchanged (Bench.config 5 1e-9) Bench.start))
  = 1%nat.
Proof.
  apply (unchanged_fields_converge_in_one_step
           Bench.unchanged (Bench.config 5 1e-9) Bench.start).
  - reflexivity.
  - simpl. lia.
  - intros U v. reflexivity.
  - intros dt v U U_old. exists U. split; [reflexivity|].
    exact (distance_self U).
Defined.

Lemma zero_tolerance_runs_all_steps_witness :
  terminal (main Bench.heating (Bench.config 10 0) Bench.start)
  = MAX_STEPS_REACHED /\
  List.length (steps (main Bench.heating (Bench.config 10 0) Bench.start))
  = 10%nat /\
  List.length
    (data_rows
       (plog (end_state (main Bench.heating (Bench.config 10 0) Bench.start))))
  = 10%nat.
Proof.
  apply (zero_tolerance_runs_all_steps
           Bench.heating (Bench.config 10 0) Bench.start).
  - reflexivity.
  - reflexivity.
  - intros U v. discriminate.
  - intros dt v U U_old. discriminate.
  - intros U U_old. exact (distance_nonneg U U_old).
Defined.

(** The Stokes solve of the third step raises: two data lines are in the
    log, which nothing has closed. *)
Lemma log_left_open_on_divergence :
  terminal Bench.diverging_run = DIVERGED /\
  List.length (data_rows (plog (end_state Bench.diverging_run))) = 2%nat /\
  plog_closed (end_state Bench.diverging_run) = false.
Proof. vm_compute. repeat split; reflexivity. Qed.

(** In the same run no checkpoint is written. *)
Lemma no_checkpoint_on_divergence :
  terminal Bench.diverging_run = DIVERGED /\
  final_checkpoint (end_state Bench.diverging_run) = None.
Proof. vm_compute. split; reflexivity. Qed.

(** * Further properties of the loop *)

Section Sinks_and_log.

Context {Node Mixed Mesh : Type}.
Variable C : @Collaborators Node Mixed Mesh.
Variable cfg : Config.

Abbreviation Store := (@State Node Mixed Mesh).

(** ** What one pass does to the VTK files and, when it raises, to time *)

Lemma loop_body_files (i : nat) (s : Store) :
  let frame := if output_due cfg i then [(z s, T s, FullT s)] else [] in
  match loop_body C cfg i s with
  | Ok _ s' =>
      output_file s' = output_file s ++ frame /\
      ref_file s' = (ref_file s + List.length frame)%nat
  | Exc _ s' =>
      output_file s' = output_file s ++ frame /\
      ref_file s' = (ref_file s + List.length frame)%nat /\
      time s' = time s + next_dt C cfg s /\
      delta_t s' = next_dt C cfg s
  end.
Proof.
  unfold loop_body, bind, write_output, t_adapt_update_timestep,
    stokes_solver_solve, energy_solver_solve, gd, read, modify, log_str,
    ret, next_dt, output_due.
  destruct (N.eqb _ _); cbn [z T T_old FullT delta_t time plog
    set_files set_delta_t set_time set_z set_T set_plog set_FullT];
    (destruct (stokes_solve C (T s) (z s)) as [z'|]);
    cbn [z T T_old FullT delta_t time plog
    set_files set_delta_t set_time set_z set_T set_plog set_FullT];
    try (destruct (energy_solve C _ z' (T s) (T_old s)) as [[T' Told']|]);
    cbn [z T T_old FullT delta_t time plog
    set_files set_delta_t set_time set_z set_T set_plog set_FullT];
    try destruct (Qltb _ _);
    cbn; rewrite ?app_nil_r, ?Nat.add_0_r, ?Nat.add_1_r; auto.
Qed.

Lemma Forall_firstn {A : Type} (P : A -> Prop) (k : nat) (l : list A) :
  Forall P l -> Forall P (firstn k l).
Proof.
  revert k. induction l as [|a l IH]; intros k H.
  - rewrite firstn_nil. constructor.
  - destruct k as [|k]; cbn [firstn]; [constructor|].
    inversion H; subst. constructor; auto.
Qed.

(** ** The VTK files *)

Lemma for_range_files (n i : nat) (s : Store) :
  let r := for_range C cfg n i s in
  let started := match exit r with
                 | Uncaught _ => S (List.length (completed r))
                 | _ => List.length (completed r)
                 end in
  let frames := frames_from cfg i (firstn started (s :: completed r)) in
  output_file (final r) = output_file s ++ frames /\
  ref_file (final r) = (ref_file s + List.length frames)%nat.
Proof.
  revert i s. induction n as [|n IH]; intros i s; cbv zeta; cbn [for_range].
  - cbn. rewrite app_nil_r, Nat.add_0_r. auto.
  - pose proof (loop_body_files i s) as Hf. cbv zeta in Hf.
    destruct (loop_body C cfg i s) as [[|] s1|e s1];
      cbn [completed exit final List.length firstn frames_from].
    + destruct Hf as [Ho Hr].
      specialize (IH (S i) s1). cbv zeta in IH. destruct IH as [IHo IHr].
      assert (Hk : forall k,
        frames_from cfg i (firstn (S k) (s :: s1 :: completed
                                           (for_range C cfg n (S i) s1)))
        = (if output_due cfg i then [(z s, T s, FullT s)] else [])
          ++ frames_from cfg (S i)
               (firstn k (s1 :: completed (for_range C cfg n (S i) s1))))
        by reflexivity.
      destruct (exit (for_range C cfg n (S i) s1));
        rewrite Hk, IHo, IHr, Ho, Hr, length_app, <- app_assoc; split;
        try reflexivity; lia.
    + rewrite app_nil_r. exact Hf.
    + rewrite app_nil_r. tauto.
Qed.

Lemma main_files (i : Initial) :
  let o := main C cfg i in
  let frames := frames_from cfg 0
                  (firstn (passes_started o)
                          (initial_state C cfg i :: steps o)) in
  output_file (end_state o) = frames /\
  ref_file (end_state o) = List.length frames.
Proof.
  cbv zeta. unfold passes_started.
  destruct (main_run C cfg i) as (Ht & Hs & He). rewrite Ht, Hs, He.
  pose proof (for_range_files (timesteps cfg) 0 (initial_state C cfg i)) as Hf.
  cbv zeta in Hf. cbn [initial_state output_file ref_file app Nat.add] in Hf.
  destruct (exit _) as [| |[]];
    cbn [terminal_of epilogue output_file ref_file
         set_final_checkpoint set_plog_closed];
    exact Hf.
Qed.

(** The stores the started passes start from. *)
Lemma started_stores (i : Initial) :
  firstn (passes_started (main C cfg i))
         (initial_state C cfg i :: steps (main C cfg i))
  = match terminal (main C cfg i) with
    | DIVERGED => initial_state C cfg i :: steps (main C cfg i)
    | _ => removelast (initial_state C cfg i :: steps (main C cfg i))
    end.
Proof.
  unfold passes_started.
  destruct (terminal (main C cfg i));
    try (rewrite removelast_firstn_len; reflexivity).
  exact (firstn_all (initial_state C cfg i :: steps (main C cfg i))).
Qed.

(** X1: the VTK file holds, in order, one frame for each started pass whose
    number is a multiple of the output frequency; the frame of pass [n]
    shows the store that pass starts from (the initial store for pass 0, the
    store step [n - 1] left otherwise).  Unless a solve raised, the store the
    last step leaves is therefore never written by the loop. *)
Theorem output_frames (i : Initial) :
  output_file (end_state (main C cfg i))
  = frames_from cfg 0
      match terminal (main C cfg i) with
      | DIVERGED => initial_state C cfg i :: steps (main C cfg i)
      | _ => removelast (initial_state C cfg i :: steps (main C cfg i))
      end.
Proof.
  rewrite <- started_stores. apply main_files.
Qed.

(** X2: the reference state is written as often as the fields: the two
    writes of lines 221-222 go together. *)
Theorem reference_written_with_output (i : Initial) :
  ref_file (end_state (main C cfg i))
  = List.length (output_file (end_state (main C cfg i))).
Proof.
  destruct (main_files i) as [Ho Hr]. rewrite Hr, Ho. reflexivity.
Qed.

Lemma frames_from_Forall (P : Store -> Prop)
      (R : Mixed * @Field Node * @Field Node -> Prop) (i : nat)
      (l : list Store) :
  (forall s, P s -> R (z s, T s, FullT s)) ->
  Forall P l -> Forall R (frames_from cfg i l).
Proof.
  intros HPR. revert i. induction l as [|s l IH]; intros i H;
    cbn [frames_from].
  - constructor.
  - inversion H; subst. apply Forall_app. split; [|auto].
    destruct (output_due cfg i); repeat constructor; auto.
Qed.

(** X3: in every frame written to the VTK file the full temperature is the
    temperature of the same frame plus the reference temperature. *)
Theorem frames_are_consistent (i : Initial) :
  Forall (fun frame : Mixed * @Field Node * @Field Node =>
            snd frame = field_sum (snd (fst frame)) (Tbar C))
         (output_file (end_state (main C cfg i))).
Proof.
  destruct (main_files i) as [Ho _]. rewrite Ho.
  apply frames_from_Forall
    with (P := fun s : Store => FullT s = field_sum (T s) (Tbar C)).
  - intros s H. exact H.
  - apply Forall_firstn. apply Forall_forall. intros s Hin.
    apply In_nth_error in Hin. destruct Hin as [k Hk].
    exact (steps_FullT C cfg _ _ _ Hk).
Qed.

(** *** How many frames *)

Lemma output_due_mod (n : nat) :
  output_due cfg n = true
  <-> (n mod Pos.to_nat (output_frequency cfg) = 0)%nat.
Proof.
  unfold output_due. rewrite N.eqb_eq.
  rewrite <- (Znat.positive_nat_N (output_frequency cfg)), <- Nat2N.inj_mod.
  split.
  - intros H. apply Nat2N.inj. exact H.
  - intros H. rewrite H. reflexivity.
Qed.

Lemma frames_from_app (n : nat) (l1 l2 : list Store) :
  frames_from cfg n (l1 ++ l2)
  = frames_from cfg n l1 ++ frames_from cfg (n + List.length l1) l2.
Proof.
  revert n. induction l1 as [|s l1 IH]; intros n; cbn [app frames_from List.length].
  - rewrite Nat.add_0_r. reflexivity.
  - rewrite IH, <- app_assoc.
    replace (S n + List.length l1)%nat with (n + S (List.length l1))%nat by lia.
    reflexivity.
Qed.

(** Rounding up of a quotient, one numerator at a time. *)
Lemma ceiling_step (n f : nat) :
  (0 < f)%nat ->
  ((S n + (f - 1)) / f
   = (n + (f - 1)) / f + if (n mod f =? 0)%nat then 1 else 0)%nat.
Proof.
  intros Hf.
  pose proof (Nat.div_mod_eq n f) as Hn.
  pose proof (Nat.mod_upper_bound n f ltac:(lia)) as Hr.
  set (q := (n / f)%nat) in *. set (r := (n mod f)%nat) in *.
  destruct (Nat.eqb_spec r 0) as [E|E].
  - assert (H1 : ((n + (f - 1)) / f = q)%nat)
      by (symmetry; apply (Nat.div_unique _ _ q (f - 1)); nia).
    assert (H2 : ((S n + (f - 1)) / f = S q)%nat)
      by (symmetry; apply (Nat.div_unique _ _ (S q) 0); nia).
    lia.
  - assert (H1 : ((n + (f - 1)) / f = S q)%nat)
      by (symmetry; apply (Nat.div_unique _ _ (S q) (r - 1)); nia).
    assert (H2 : ((S n + (f - 1)) / f = S q)%nat)
      by (symmetry; apply (Nat.div_unique _ _ (S q) r); nia).
    lia.
Qed.

Lemma frames_from_count (l : list Store) :
  List.length (frames_from cfg 0 l)
  = ((List.length l + (Pos.to_nat (output_frequency cfg) - 1))
     / Pos.to_nat (output_frequency cfg))%nat.
Proof.
  pose proof (Pos2Nat.is_pos (output_frequency cfg)) as Hf.
  induction l as [|s l IH] using rev_ind.
  - cbn [frames_from List.length Nat.add].
    symmetry. apply Nat.div_small. lia.
  - rewrite frames_from_app, !length_app, IH. cbn [List.length frames_from Nat.add].
    rewrite Nat.add_1_r, ceiling_step by exact Hf. f_equal.
    rewrite app_nil_r.
    destruct (output_due cfg (List.length l)) eqn:E.
    + apply output_due_mod in E. rewrite E. reflexivity.
    + destruct (Nat.eqb_spec
                  (List.length l mod Pos.to_nat (output_frequency cfg)) 0)
        as [E0|E0]; [|reflexivity].
      apply output_due_mod in E0. congruence.
Qed.

(** X4: a run that started [p] passes leaves [p / output_frequency],
    rounded up, frames in the VTK file. *)
Theorem output_frame_count (i : Initial) :
  List.length (output_file (end_state (main C cfg i)))
  = ((passes_started (main C cfg i)
      + (Pos.to_nat (output_frequency cfg) - 1))
     / Pos.to_nat (output_frequency cfg))%nat.
Proof.
  destruct (main_files i) as [Ho _]. rewrite Ho, frames_from_count.
  rewrite firstn_length_le; [reflexivity|].
  unfold passes_started. cbn [List.length].
  destruct (terminal (main C cfg i)); lia.
Qed.

(** ** The lines of the log *)

Lemma main_rows (i : Initial) :
  data_rows (plog (end_state (main C cfg i)))
  = pass_rows C 0 (initial_state C cfg i) (steps (main C cfg i)).
Proof.
  rewrite main_plog. cbn [data_rows flat_map app].
  change (flat_map _ ?l) with (data_rows l).
  apply data_rows_Data.
Qed.

Lemma pass_rows_Forall (R : LogRow -> Prop) (n : nat) (s : Store)
      (l : list Store) :
  (forall k sp s', R (pass_row C k sp s')) ->
  Forall R (pass_rows C n s l).
Proof.
  intros HR. revert n s. induction l as [|s' l IH]; intros n s;
    cbn [pass_rows]; constructor; auto.
Qed.

(** X5: in every data line the two energy columns are those of the same
    line's other columns: [energy] is the distance between the absolute
    Nusselt numbers, [energy_2] the distance between the rate of work and
    the dissipation; neither is negative. *)
Theorem energy_columns (i : Initial) :
  Forall (fun row =>
            row_energy row
            = Qabs (Qabs (row_nu_top row) - Qabs (row_nu_base row)) /\
            row_energy_2 row
            = Qabs (row_rate_work_g row - row_rate_viscous row) /\
            0 <= row_energy row /\
            0 <= row_energy_2 row)
         (data_rows (plog (end_state (main C cfg i)))).
Proof.
  rewrite main_rows. apply pass_rows_Forall. intros k sp s'.
  cbn [pass_row row_energy row_energy_2 row_nu_top row_nu_base
       row_rate_work_g row_rate_viscous].
  repeat split; apply Qabs_nonneg.
Qed.

Lemma for_range_times (n i : nat) (s : Store) :
  let rows := pass_rows C i s (completed (for_range C cfg n i s)) in
  map row_time rows = running_sums (time s) (map row_dt rows).
Proof.
  revert i s. induction n as [|n IH]; intros i s; cbv zeta; cbn [for_range].
  - reflexivity.
  - destruct (loop_body C cfg i s) as [[|] s1|e s1] eqn:Eb;
      cbn [completed pass_rows map running_sums]; [| |reflexivity];
      apply loop_body_ok in Eb; destruct Eb as (_ & _ & Ht & Hd & _);
      cbn [pass_row row_time row_dt]; rewrite Hd, Ht.
    + f_equal. specialize (IH (S i) s1). cbv zeta in IH.
      rewrite IH, Ht. reflexivity.
    + reflexivity.
Qed.

(** X6: down the log the [time] column is the running total of the [dt]
    column, started from 0. *)
Theorem time_column_accumulates_dt (i : Initial) :
  map row_time (data_rows (plog (end_state (main C cfg i))))
  = running_sums 0 (map row_dt (data_rows (plog (end_state (main C cfg i))))).
Proof.
  rewrite main_rows.
  destruct (main_run C cfg i) as (_ & Hs & _). rewrite Hs.
  exact (for_range_times (timesteps cfg) 0 (initial_state C cfg i)).
Qed.

(** X7: when a solve raises, time has already been advanced, and the
    Constant [delta_t] updated, by the step of the pass that raised, for
    which no line is logged: the store the script is left with is ahead of
    the last line of the log. *)
Theorem divergence_leaves_time_advanced (i : Initial) :
  terminal (main C cfg i) = DIVERGED ->
  let s := last (steps (main C cfg i)) (initial_state C cfg i) in
  time (end_state (main C cfg i)) = time s + next_dt C cfg s /\
  delta_t (end_state (main C cfg i)) = next_dt C cfg s /\
  plog (end_state (main C cfg i)) = plog s.
Proof.
  destruct (main_run C cfg i) as (Ht & Hs & He). rewrite Ht, Hs, He.
  pose proof (for_range_exit C cfg (timesteps cfg) 0 (initial_state C cfg i))
    as Hx.
  unfold exit_spec in Hx.
  destruct (exit _) as [| |e]; cbn [terminal_of]; try discriminate.
  intros _. cbv zeta. destruct Hx as (_ & _ & Hb). cbn [Nat.add] in Hb.
  pose proof (loop_body_files
                (List.length (completed (for_range C cfg (timesteps cfg) 0
                                           (initial_state C cfg i))))
                (last (completed (for_range C cfg (timesteps cfg) 0
                                    (initial_state C cfg i)))
                      (initial_state C cfg i))) as Hf.
  cbv zeta in Hf. rewrite Hb in Hf.
  apply loop_body_exc in Hb. tauto.
Qed.

Lemma pass_rows_nth_inv (n : nat) (s0 : Store) (l : list Store) (k : nat)
      (row : LogRow) :
  nth_error (pass_rows C n s0 l) k = Some row ->
  exists sp s,
    nth_error (s0 :: l) k = Some sp /\
    nth_error l k = Some s /\
    row = pass_row C (n + k) sp s.
Proof.
  revert n s0 k. induction l as [|s1 l IH]; intros n s0 k;
    cbn [pass_rows].
  - destruct k; discriminate.
  - destruct k as [|k]; cbn [nth_error].
    + intros H. inversion H. exists s0, s1.
      rewrite Nat.add_0_r. auto.
    + intros H. destruct (IH _ _ _ H) as (sp & s & H1 & H2 & H3).
      exists sp, s. replace (n + S k)%nat with (S n + k)%nat by lia. auto.
Qed.

(** X8: a data line whose [maxchange] is below the tolerance is the last
    line of the log, and the run it ends is a converged one. *)
Theorem line_below_tolerance_is_last (i : Initial) (n : nat) (row : LogRow) :
  nth_error (data_rows (plog (end_state (main C cfg i)))) n = Some row ->
  row_maxchange row < steady_state_tolerance cfg ->
  terminal (main C cfg i) = CONVERGED /\
  S n = List.length (data_rows (plog (end_state (main C cfg i)))).
Proof.
  rewrite main_rows, pass_rows_length. intros Hr Hlt.
  destruct (pass_rows_nth_inv _ _ _ _ _ Hr) as (sp & s & _ & Hs & ->).
  cbn [pass_row row_maxchange] in Hlt. fold (maxchange_of C s) in Hlt.
  destruct (main_run C cfg i) as (Ht & Hst & _). rewrite Ht, Hst in *.
  pose proof (for_range_exit C cfg (timesteps cfg) 0 (initial_state C cfg i))
    as Hx.
  unfold exit_spec in Hx.
  assert (Hall : forall l,
             Forall (fun s' => steady_state_tolerance cfg <= maxchange_of C s')
                    l -> ~ In s l).
  { intros l Hl Hin. rewrite Forall_forall in Hl.
    apply (Qlt_not_le _ _ Hlt). apply Hl. exact Hin. }
  destruct (exit _) as [| |e]; cbn [terminal_of].
  - destruct Hx as (earlier & sN & He & _ & Hearlier & _).
    split; [reflexivity|].
    rewrite He in *. rewrite length_app. cbn [List.length].
    destruct (Nat.lt_ge_cases n (List.length earlier)) as [Hn|Hn].
    + rewrite nth_error_app1 in Hs by exact Hn.
      exfalso. apply (Hall earlier Hearlier).
      eapply nth_error_In. exact Hs.
    + assert (Hb : (n < List.length (earlier ++ [sN]))%nat)
        by (apply nth_error_Some; congruence).
      rewrite length_app in Hb. cbn [List.length] in Hb. lia.
  - exfalso. destruct Hx as (_ & _ & Hl). apply (Hall _ Hl).
    eapply nth_error_In. exact Hs.
  - exfalso. destruct Hx as (_ & Hl & _). apply (Hall _ Hl).
    eapply nth_error_In. exact Hs.
Qed.

Lemma firstn_snoc {A : Type} (l : list A) (k : nat) (a : A) :
  nth_error l k = Some a -> firstn (S k) l = firstn k l ++ [a].
Proof.
  revert k. induction l as [|b l IH]; intros k.
  - destruct k; discriminate.
  - destruct k as [|k]; cbn [nth_error].
    + intros H. inversion H. reflexivity.
    + intros H. cbn [firstn app]. f_equal. exact (IH _ H).
Qed.

Lemma pass_rows_nth_fwd (n : nat) (s0 : Store) (l : list Store) (k : nat)
      (sp s : Store) :
  nth_error (s0 :: l) k = Some sp ->
  nth_error l k = Some s ->
  nth_error (pass_rows C n s0 l) k = Some (pass_row C (n + k) sp s).
Proof.
  revert n s0 k. induction l as [|s1 l IH]; intros n s0 k.
  - destruct k; discriminate.
  - destruct k as [|k]; cbn [nth_error pass_rows].
    + intros H1 H2. inversion H1; inversion H2; subst.
      rewrite Nat.add_0_r. reflexivity.
    + intros H1 H2. replace (n + S k)%nat with (S n + k)%nat by lia.
      apply IH; assumption.
Qed.

(** X9: the log only grows: what it holds after step [n] -- the header and
    the lines of steps 0 to [n] -- is the beginning of what it holds when
    the script ends. *)
Theorem log_is_append_only (i : Initial) (n : nat) (s : Store) :
  nth_error (steps (main C cfg i)) n = Some s ->
  plog s = firstn (S (S n)) (plog (end_state (main C cfg i))).
Proof.
  rewrite main_plog, firstn_cons, firstn_map.
  revert s. induction n as [|n IH]; intros s Hs;
    destruct (steps_pass C cfg _ _ _ Hs) as (sp & c & Hp & Hb);
    apply loop_body_ok in Hb; destruct Hb as (_ & _ & _ & _ & _ & Hlog & _);
    rewrite Hlog, (firstn_snoc _ _ _ (pass_rows_nth_fwd 0 _ _ _ _ _ Hp Hs)),
      map_app; cbn [Nat.add map].
  - cbn [nth_error] in Hp. inversion Hp. reflexivity.
  - cbn [nth_error] in Hp. rewrite (IH _ Hp). reflexivity.
Qed.

(** ** The data flow of a step *)

(** X10: within a step the Stokes solve comes first and reads the
    temperature the step before left; the energy solve then reads the [z]
    the Stokes solve has just produced and the time step of this very step,
    and starts from the temperature of the step before. *)
Theorem solves_are_chained (i : Initial) (n : nat) (s_prev s : Store) :
  nth_error (initial_state C cfg i :: steps (main C cfg i)) n = Some s_prev ->
  nth_error (steps (main C cfg i)) n = Some s ->
  stokes_solve C (T s_prev) (z s_prev) = Some (z s) /\
  energy_solve C (delta_t s) (z s) (T s_prev) (T_old s_prev)
  = Some (T s, T_old s).
Proof.
  intros Hp Hs.
  destruct (steps_pass C cfg _ _ _ Hs) as (sp & c & Hp' & Hb).
  rewrite Hp in Hp'. inversion Hp'; subst sp.
  apply loop_body_ok in Hb. destruct Hb as (H1 & H2 & _ & H3 & _).
  rewrite H3. auto.
Qed.

(** ** The checkpoint and the empty run *)

(** X11: when no solve raised, the checkpoint holds the temperature and the
    mixed function of the last executed step -- the initial ones when no
    step was executed. *)
Theorem checkpoint_is_last_step (i : Initial) :
  terminal (main C cfg i) <> DIVERGED ->
  let s := last (steps (main C cfg i)) (initial_state C cfg i) in
  final_checkpoint (end_state (main C cfg i))
  = Some (mkCheckpoint (mesh C) (T s) (z s)).
Proof.
  destruct (main_run C cfg i) as (Ht & Hs & He). rewrite Ht, Hs, He.
  pose proof (for_range_exit C cfg (timesteps cfg) 0 (initial_state C cfg i))
    as Hx.
  pose proof (for_range_sinks C cfg (timesteps cfg) 0 (initial_state C cfg i))
    as [_ Hk].
  unfold exit_spec in Hx.
  destruct (exit _) as [| |[]]; cbn [terminal_of]; intros Hd; cbv zeta;
    try congruence.
  - destruct Hx as (earlier & sN & Hc & Hf & _).
    rewrite Hc, last_last, Hf. reflexivity.
  - destruct Hx as (_ & Hf & _). rewrite Hf. reflexivity.
Qed.

(** X12: with no time step to run the script still ends in order: the loop
    is left by exhaustion, the log holds its header alone and is closed, no
    frame is written, and the checkpoint holds the initial fields. *)
Theorem no_timesteps (i : Initial) :
  timesteps cfg = 0%nat ->
  terminal (main C cfg i) = MAX_STEPS_REACHED /\
  steps (main C cfg i) = [] /\
  plog (end_state (main C cfg i)) = [Header header_columns] /\
  plog_closed (end_state (main C cfg i)) = true /\
  output_file (end_state (main C cfg i)) = [] /\
  final_checkpoint (end_state (main C cfg i))
  = Some (mkCheckpoint (mesh C) (T_init i) (z_init i)).
Proof.
  intros H0. unfold main. rewrite H0. cbn. repeat split.
Qed.

End Sinks_and_log.

(** ** The further properties on the test bench *)

Lemma divergence_leaves_time_advanced_witness :
  time (end_state Bench.diverging_run)
  = time (last (steps Bench.diverging_run)
               (initial_state Bench.diverging (Bench.config 5 0) Bench.start))
    + next_dt Bench.diverging (Bench.config 5 0)
        (last (steps Bench.diverging_run)
              (initial_state Bench.diverging (Bench.config 5 0) Bench.start)) /\
  delta_t (end_state Bench.diverging_run)
  = next_dt Bench.diverging (Bench.config 5 0)
      (last (steps Bench.diverging_run)
            (initial_state Bench.diverging (Bench.config 5 0) Bench.start)) /\
  plog (end_state Bench.diverging_run)
  = plog (last (steps Bench.diverging_run)
               (initial_state Bench.diverging (Bench.config 5 0) Bench.start)).
Proof.
  apply (divergence_leaves_time_advanced
           Bench.diverging (Bench.config 5 0) Bench.start).
  vm_compute. reflexivity.
Defined.

Lemma line_below_tolerance_is_last_witness :
  terminal Bench.unchanged_run = CONVERGED /\
  1%nat = List.length (data_rows (plog (end_state Bench.unchanged_run))).
Proof.
  apply (line_below_tolerance_is_last
           Bench.unchanged (Bench.config 5 1e-9) Bench.start 0
           Bench.unchanged_row).
  - vm_compute. reflexivity.
  - vm_compute. reflexivity.
Defined.

Lemma log_is_append_only_witness :
  plog (Bench.heating_store 2)
  = firstn 3 (plog (end_state Bench.heating_run)).
Proof.
  apply (log_is_append_only Bench.heating (Bench.config 3 0) Bench.start 1).
  vm_compute. reflexivity.
Defined.

Lemma solves_are_chained_witness :
  stokes_solve Bench.heating (T (Bench.heating_store 1))
               (z (Bench.heating_store 1))
  = Some (z (Bench.heating_store 2)) /\
  energy_solve Bench.heating (delta_t (Bench.heating_store 2))
               (z (Bench.heating_store 2)) (T (Bench.heating_store 1))
               (T_old (Bench.heating_store 1))
  = Some (T (Bench.heating_store 2), T_old (Bench.heating_store 2)).
Proof.
  apply (solves_are_chained Bench.heating (Bench.config 3 0) Bench.start 1).
  - vm_compute. reflexivity.
  - vm_compute. reflexivity.
Defined.

Lemma checkpoint_is_last_step_witness :
  final_checkpoint (end_state Bench.heating_run)
  = Some (mkCheckpoint (mesh Bench.heating)
            (T (last (steps Bench.heating_run)
                     (initial_state Bench.heating (Bench.config 3 0)
                                    Bench.start)))
            (z (last (steps Bench.heating_run)
                     (initial_state Bench.heating (Bench.config 3 0)
                                    Bench.start)))).
Proof.
  apply (checkpoint_is_last_step Bench.heating (Bench.config 3 0) Bench.start).
  vm_compute. discriminate.
Defined.

Lemma no_timesteps_witness :
  terminal (main Bench.heating (Bench.config 0 0) Bench.start)
  = MAX_STEPS_REACHED /\
  steps (main Bench.heating (Bench.config 0 0) Bench.start) = [] /\
  plog (end_state (main Bench.heating (Bench.config 0 0) Bench.start))
  = [Header header_columns] /\
  plog_closed (end_state (main Bench.heating (Bench.config 0 0) Bench.start))
  = true /\
  output_file (end_state (main Bench.heating (Bench.config 0 0) Bench.start))
  = [] /\
  final_checkpoint
    (end_state (main Bench.heating (Bench.config 0 0) Bench.start))
  = Some (mkCheckpoint (mesh Bench.heating) (T_init Bench.start)
                       (z_init Bench.start)).
Proof.
  apply (no_timesteps Bench.heating (Bench.config 0 0) Bench.start).
  reflexivity.
Defined.

(** * The reference state and the initial temperature *)

Module ReferenceStateFacts.

Import ReferenceState.
Local Open Scope R_scope.

Lemma exp_monotone (a b : R) : a <= b -> exp a <= exp b.
Proof.
  intros [H|H].
  - left. apply exp_increasing. exact H.
  - rewrite H. right. reflexivity.
Qed.

(** X13: the initial temperature takes, on the bottom and on the top of the
    box, the values the boundary conditions of the energy equation impose
    there. *)
Theorem initial_temperature_meets_bcs
        (Di T0 : R) (id : nat) (value : R) (X : Point) :
  temp_bcs Di T0 id = Some value ->
  on_boundary id X ->
  T_initial Di T0 X = value.
Proof.
  unfold temp_bcs, T_initial.
  destruct (Nat.eqb_spec id bottom_id) as [->|_].
  - intros Hv Hb. inversion Hv. cbn in Hb. rewrite Hb.
    rewrite Rmult_0_r, sin_0. ring.
  - destruct (Nat.eqb_spec id top_id) as [->|_]; [|discriminate].
    intros Hv Hb. inversion Hv. cbn in Hb. rewrite Hb.
    rewrite Rmult_1_r, sin_PI. ring.
Qed.

(** X14: whatever the dissipation number and the surface temperature, the
    initial full temperature is 1 all along the bottom of the box and 0 all
    along its top. *)
Theorem initial_full_temperature_spans_unit (Di T0 x : R) :
  FullT_initial Di T0 (x, 0) = 1 /\ FullT_initial Di T0 (x, 1) = 0.
Proof.
  unfold FullT_initial, T_initial, Tbar. cbn [fst snd]. split.
  - rewrite Rmult_0_r, sin_0.
    replace ((1 - 0) * Di) with Di by ring. ring.
  - rewrite Rmult_1_r, sin_PI.
    replace ((1 - 1) * Di) with 0 by ring. rewrite exp_0. ring.
Qed.

(** X15: for a dissipation number and a surface temperature that are not
    negative, the reference density and the reference temperature do not
    decrease with depth; at the surface the density is 1 and the
    temperature 0, so below it they are at least that. *)
Theorem reference_state_grows_with_depth (Di T0 : R) (X Y : Point) :
  0 <= Di -> 0 <= T0 ->
  snd X <= snd Y -> snd Y <= 1 ->
  1 <= rhobar Di Y <= rhobar Di X /\
  0 <= Tbar Di T0 Y <= Tbar Di T0 X /\
  (snd Y = 1 -> rhobar Di Y = 1 /\ Tbar Di T0 Y = 0).
Proof.
  intros HDi HT0 HXY HY. unfold rhobar, Tbar.
  assert (H1 : 1 <= exp ((1 - snd Y) * Di)).
  { pose proof (exp_monotone 0 ((1 - snd Y) * Di)) as H.
    rewrite exp_0 in H. apply H. Lra.nra. }
  assert (H2 : exp ((1 - snd Y) * Di) <= exp ((1 - snd X) * Di)).
  { apply exp_monotone. Lra.nra. }
  repeat split; try Lra.nra.
  - rewrite H. replace ((1 - 1) * Di) with 0 by ring. apply exp_0.
  - rewrite H. replace ((1 - 1) * Di) with 0 by ring. rewrite exp_0. ring.
Qed.

Lemma initial_temperature_meets_bcs_witness :
  T_initial 0.5 0.091 (0.3, 1) = 0.
Proof.
  apply (initial_temperature_meets_bcs 0.5 0.091 top_id 0 (0.3, 1)).
  - reflexivity.
  - reflexivity.
Defined.

Lemma reference_state_grows_with_depth_witness :
  1 <= rhobar 0.5 (0.3, 1) <= rhobar 0.5 (0.3, 0) /\
  0 <= Tbar 0.5 0.091 (0.3, 1) <= Tbar 0.5 0.091 (0.3, 0) /\
  (snd (0.3, 1) = 1 ->
   rhobar 0.5 (0.3, 1) = 1 /\ Tbar 0.5 0.091 (0.3, 1) = 0).
Proof.
  apply (reference_state_grows_with_depth 0.5 0.091 (0.3, 0) (0.3, 1)).
  - Lra.lra.
  - Lra.lra.
  - simpl. Lra.lra.
  - simpl. Lra.lra.
Defined.

End ReferenceStateFacts.

(** * Inside a pass, the log file, and time in binary64 *)

Section Inside_a_pass.

Context {Node Mixed Mesh : Type}.
Variable C : @Collaborators Node Mixed Mesh.
Variable cfg : Config.

(** A pass is its two halves, one after the other. *)
Lemma loop_body_split (i : nat) (s : @State Node Mixed Mesh) :
  loop_body C cfg i s
  = bind (solve_step C cfg i) (fun _ => finish_step C cfg i) s.
Proof.
  unfold loop_body, solve_step, finish_step, bind.
  destruct (write_output cfg i s) as [u1 s1|e1 s1]; [|reflexivity].
  destruct (t_adapt_update_timestep C cfg s1) as [dt s2|e2 s2];
    [|reflexivity].
  destruct (modify _ s2) as [u3 s3|e3 s3]; [|reflexivity].
  destruct (stokes_solver_solve C s3) as [u4 s4|e4 s4]; [|reflexivity].
  destruct (energy_solver_solve C s4) as [u5 s5|e5 s5]; reflexivity.
Qed.

(** The two solves leave the full temperature and the log as they were. *)
Lemma solve_step_ok (i : nat) (s s1 : @State Node Mixed Mesh) (u : unit) :
  solve_step C cfg i s = Ok u s1 ->
  FullT s1 = FullT s /\
  plog s1 = plog s /\
  stokes_solve C (T s) (z s) = Some (z s1) /\
  energy_solve C (next_dt C cfg s) (z s1) (T s) (T_old s)
  = Some (T s1, T_old s1).
Proof.
  unfold solve_step, bind, write_output, t_adapt_update_timestep,
    stokes_solver_solve, energy_solver_solve, modify, ret, next_dt.
  destruct (N.eqb _ _); cbn [z T T_old FullT delta_t time plog
    set_files set_delta_t set_time set_z set_T];
    (destruct (stokes_solve C (T s) (z s)) as [z'|] eqn:Es; [|discriminate]);
    cbn [z T T_old FullT delta_t time plog
    set_files set_delta_t set_time set_z set_T];
    (destruct (energy_solve C _ z' (T s) (T_old s)) as [[T' Told']|] eqn:Ee;
     [|discriminate]);
    intros H; inversion H; subst; cbn; auto.
Qed.

(** Right after the two solves of a pass that starts from a store of a run,
    the full temperature is the reference temperature plus the temperature
    the pass started from, not the one the energy solve has just produced. *)
Lemma full_temperature_lags_after_solves
      (i : Initial) (n : nat) (s s1 : @State Node Mixed Mesh) (u : unit) :
  nth_error (initial_state C cfg i :: steps (main C cfg i)) n = Some s ->
  solve_step C cfg n s = Ok u s1 ->
  FullT s1 = field_sum (T s) (Tbar C).
Proof.
  intros Hs H1. apply solve_step_ok in H1. destruct H1 as [HF _].
  rewrite HF. exact (steps_FullT C cfg _ _ _ Hs).
Qed.

(** ** The log file *)



End Inside_a_pass.

(** On the bench, right after the two solves of the first pass the full
    temperature at the top node is still 0, the initial one, while the
    temperature there has become 1e-6 and the reference temperature is 0. *)
Lemma full_temperature_stale_after_solves :
  solve_step Bench.heating (Bench.config 3 0) 0
             (initial_state Bench.heating (Bench.config 3 0) Bench.start)
  = Ok tt Bench.heating_after_solves /\
  FullT Bench.heating_after_solves true == 0 /\
  T Bench.heating_after_solves true + Tbar Bench.heating true == 1e-6 /\
  ~ FullT Bench.heating_after_solves true
    == T Bench.heating_after_solves true + Tbar Bench.heating true.
Proof.
  split; [vm_compute; reflexivity|].
  split; [vm_compute; reflexivity|].
  split; [vm_compute; reflexivity|].
  vm_compute. discriminate.
Qed.

